(** * The prerender adapter of pages/api/prerender.ts

    A shallow embedding of the Vercel serverless function that converts a
    NextJS request/response pair into the express-style [req]/[res]/[next]
    triple expected by the prerendercloud middleware, together with the
    properties its specification states about it.

    Conventions of the embedding:
    - the outer [NextApiResponse] is the chronological list of the method
      calls the adapter makes on it (status, setHeader, send, redirect);
      in the first part these framework methods are recorders that never
      throw; module [Live] runs the same adapter on a response that may
      refuse a call, and [perform_accepting] relates the two;
    - the variables captured by the closures of
      [convertNextJsToReqResNextHandler] ([headers], [status], [nextApiRes],
      [callWhenDone]) form the record [Closure], threaded through a small
      state-and-exception monad;
    - the prerendercloud middleware and its [_got] fetcher are external: they
      are Section variables, the first one as the sequence of calls it makes
      on [res] and [next] for a given [req]. *)

From stdpp Require Import gmap strings list pretty.
From Stdlib Require Import ZArith.

Open Scope Z_scope.

(** ** JavaScript values and plain objects *)

Module Js.

(** The values a property read on the [headers] object can produce: the
    object is created by the literal [{}], so a read that finds no own
    property continues in [Object.prototype]. *)
Inductive value : Type :=
| Undefined
| Str (s : string)
| Inherited (name : string).

(** The property names of [Object.prototype]. *)
Definition object_prototype : list string :=
  [ "constructor"; "hasOwnProperty"; "isPrototypeOf"; "propertyIsEnumerable";
    "toLocaleString"; "toString"; "valueOf"; "__defineGetter__";
    "__defineSetter__"; "__lookupGetter__"; "__lookupSetter__"; "__proto__" ].

(** [!s] is true for the empty string only. *)
Definition falsy_string (s : string) : bool := String.eqb s "".

(** [!v]: undefined and the empty string are falsy, objects and functions
    are truthy. *)
Definition falsy (v : value) : bool :=
  match v with
  | Undefined => true
  | Str s => falsy_string s
  | Inherited _ => false
  end.

(** [!v] for [v : string | undefined]. *)
Definition falsy_opt (v : option string) : bool :=
  match v with
  | None => true
  | Some s => falsy_string s
  end.

(** [o[k]] on an object literal whose own properties are [o]. *)
Definition get (o : gmap string string) (k : string) : value :=
  match o !! k with
  | Some v => Str v
  | None => if bool_decide (k ∈ object_prototype) then Inherited k else Undefined
  end.

(** [o[k] = v] for a string [v]. Every name creates or overwrites an own
    property, except ["__proto__"]: that assignment runs the accessor of
    [Object.prototype], which ignores a value that is neither an object nor
    null. *)
Definition set (o : gmap string string) (k v : string) : gmap string string :=
  if bool_decide (k = "__proto__") then o else <[k:=v]> o.

(** [s.startsWith(p)]. *)
Definition startsWith (s p : string) : bool := String.prefix p s.

(** [s.includes(p)]. *)
Fixpoint includes (s p : string) : bool :=
  String.prefix p s ||
  match s with
  | EmptyString => false
  | String _ s' => includes s' p
  end.

(** A [string | undefined] inside a template literal. *)
Definition interpolate (v : option string) : string := default "undefined" v.

(** [a == n] for [a : number | undefined] (an unassigned [let]) and a
    number [n]. *)
Definition loose_eq (a : option Z) (n : Z) : bool :=
  match a with
  | Some m => bool_decide (m = n)
  | None => false
  end.

End Js.

(** ** The framework's request and response *)

(** The fields of [NextApiRequest] the adapter reads. *)
Record NextApiRequest : Type := {
  url : option string;
  method : option string;
  host : option string;
  user_agent : option string
}.

(** One method call on the [NextApiResponse]. *)
Inductive ResCall : Type :=
| ResStatus (code : Z)
| ResSetHeader (key val : string)
| ResSend (body : string)
| ResRedirect (location : Js.value).

(** The [NextApiResponse], as the calls made on it so far. *)
Abbreviation NextApiResponse := (list ResCall).

(** Header names are case-insensitive on the outgoing message. *)
Definition lower_ascii (a : Ascii.ascii) : Ascii.ascii :=
  let n := Ascii.nat_of_ascii a in
  if ((65 <=? n) && (n <=? 90))%nat then Ascii.ascii_of_nat (n + 32) else a.

Fixpoint toLowerCase (s : string) : string :=
  match s with
  | EmptyString => EmptyString
  | String a s' => String (lower_ascii a) (toLowerCase s')
  end.

(** The value the response holds for header [name]: the one of the latest
    [setHeader] under that name, whatever its letter case. *)
Fixpoint header_of (r : NextApiResponse) (name : string) : option string :=
  match r with
  | [] => None
  | c :: r' =>
      match header_of r' name with
      | Some v => Some v
      | None =>
          match c with
          | ResSetHeader k v =>
              if String.eqb (toLowerCase k) (toLowerCase name) then Some v else None
          | _ => None
          end
      end
  end.

(** The status last passed to [status()]; NodeJS starts from 200. *)
Definition statusCode (r : NextApiResponse) : Z :=
  default 200 (last (omap (fun c => match c with ResStatus n => Some n | _ => None end) r)).

(** The bodies passed to [send()], in order. *)
Definition sent (r : NextApiResponse) : list string :=
  omap (fun c => match c with ResSend b => Some b | _ => None end) r.

(** ** The closure state and its monad *)

(** [headers], [status], [nextApiRes] and the resolver [callWhenDone] of
    [waitForPromise], as captured by [res] and [next]. Resolving a promise
    again has no effect, so the promise is resolved as soon as
    [callWhenDone] has been called; the record counts the calls. *)
Record Closure : Type := {
  headers : gmap string string;
  status : option Z;
  nextApiRes : NextApiResponse;
  callWhenDone_calls : nat
}.

Inductive Promise : Type := Resolved | Pending.

Definition waitForPromise (c : Closure) : Promise :=
  if (0 <? callWhenDone_calls c)%nat then Resolved else Pending.

(** The outcome of running adapter code: it returns, or it throws an
    [Error] with the given message. *)
Inductive Completion (A : Type) : Type :=
| Normal (a : A) (c : Closure)
| Throw (message : string) (c : Closure).
Arguments Normal {A} a c.
Arguments Throw {A} message c.

Definition M (A : Type) : Type := Closure -> Completion A.

#[export] Instance M_ret : MRet M := fun A a c => Normal a c.

#[export] Instance M_bind : MBind M := fun A B f m c =>
  match m c with
  | Normal a c' => f a c'
  | Throw e c' => Throw e c'
  end.

Definition throw {A} (message : string) : M A := fun c => Throw message c.

Definition read {A} (f : Closure -> A) : M A := fun c => Normal (f c) c.

Definition write (f : Closure -> Closure) : M unit := fun c => Normal tt (f c).

Definition assign_header (key val : string) : M unit :=
  write (fun c => {| headers := Js.set (headers c) key val; status := status c;
                     nextApiRes := nextApiRes c;
                     callWhenDone_calls := callWhenDone_calls c |}).

Definition assign_status (s : Z) : M unit :=
  write (fun c => {| headers := headers c; status := Some s;
                     nextApiRes := nextApiRes c;
                     callWhenDone_calls := callWhenDone_calls c |}).

(** A method call on [nextApiRes] that returns (a response that can
    refuse the call is modelled by [Live.attempt]). *)
Definition outer (call : ResCall) : M unit :=
  write (fun c => {| headers := headers c; status := status c;
                     nextApiRes := nextApiRes c ++ [call];
                     callWhenDone_calls := callWhenDone_calls c |}).

(** [callWhenDone(null)]. *)
Definition callWhenDone : M unit :=
  write (fun c => {| headers := headers c; status := status c;
                     nextApiRes := nextApiRes c;
                     callWhenDone_calls := S (callWhenDone_calls c) |}).

(** [xs.forEach(f)]. *)
Fixpoint forEach {A} (f : A -> M unit) (xs : list A) : M unit :=
  match xs with
  | [] => mret tt
  | x :: xs' => f x ;; forEach f xs'
  end.

(** ** The adapter: [convertNextJsToReqResNextHandler] *)

Definition CACHE_CONTROL_MAX_AGE_SECONDS : Z := 60 * 60 * 24.

(** The [req] object handed to the middleware. *)
Record Req : Type := {
  connection_encrypted : bool;
  req_method : option string;
  originalUrl : option string;
  req_url : option string;
  headers_host : option string;
  headers_user_agent : option string
}.

(** The [res] object handed to the middleware. *)
Module res.

Definition getHeader (key : string) : M Js.value :=
  read (fun c => Js.get (headers c) key).

Definition setHeader (key val : string) : M unit :=
  assign_header key val ;;
  outer (ResSetHeader key val).

(** [_headers] is given by its own keys, in the order of [Object.keys],
    each with its value of type [string | undefined]; [each_header] is the
    callback of [forEach]. *)
Definition each_header (entry : string * option string) : M unit :=
  let '(headerKey, header) := entry in
  match header with
  | None => mret tt
  | Some v => if Js.falsy_string v then mret tt else setHeader headerKey v
  end.

Definition writeHead (_status : Z) (_headers : list (string * option string)) : M unit :=
  assign_status _status ;;
  outer (ResStatus _status) ;;
  forEach each_header _headers.

Definition end_ (body : string) : M unit :=
  s ← read status;
  if Js.loose_eq s 301 then
    location ← read (fun c => Js.get (headers c) "location");
    if Js.falsy location then throw "no location header"
    else
      outer (ResRedirect location) ;;
      callWhenDone
  else
    outer (ResSetHeader "Cache-Control"
             ("max-age=0, s-maxage=" +:+ pretty CACHE_CONTROL_MAX_AGE_SECONDS
              +:+ ", stale-while-revalidate")) ;;
    outer (ResSend body) ;;
    callWhenDone.

End res.

(** The options passed to [prerendercloud._got]. *)
Record GotOptions : Type := {
  encoding : option string;
  retries : Z;
  got_user_agent : string
}.

(** How the promise of [prerendercloud._got] settles: with a response, of
    which [next] reads the body, or with an error, of which [next] reads
    [toString()]. *)
Inductive GotResult : Type :=
| Fulfilled (body : string)
| Rejected (err_toString : string).

(** What [convertNextJsToReqResNextHandler] returns: [req], and the state
    shared by [res], [next] and [waitForPromise]. *)
Record fakeHandler : Type := {
  req : Req;
  originallyRequestedUrlWithProtocolAndHost : string;
  closure : Closure
}.

Definition protocol (nextApiReq : NextApiRequest) : string :=
  match host nextApiReq with
  | Some h => if Js.includes h "localhost" then "http" else "https"
  | None => "https"
  end.

Definition convertNextJsToReqResNextHandler
    (nextApiReq : NextApiRequest) (nextApiRes0 : NextApiResponse) : fakeHandler :=
  {| req := {| connection_encrypted := true;
               req_method := method nextApiReq;
               originalUrl := url nextApiReq;
               req_url := url nextApiReq;
               headers_host := host nextApiReq;
               headers_user_agent := user_agent nextApiReq |};
     originallyRequestedUrlWithProtocolAndHost :=
       protocol nextApiReq +:+ "://" +:+ Js.interpolate (host nextApiReq)
       +:+ Js.interpolate (url nextApiReq);
     closure := {| headers := ∅; status := None; nextApiRes := nextApiRes0;
                   callWhenDone_calls := 0 |} |}.

(** A call of the middleware on [res] or [next]. *)
Inductive Call : Type :=
| GetHeader (key : string)
| SetHeader (key val : string)
| WriteHead (_status : Z) (_headers : list (string * option string))
| End (body : string)
| Next.

(** What [handler] leaves behind: the calls made on [nextApiResponse], the
    state of the promise it returns, how many times [callWhenDone] was
    called, the [req] objects the middleware was called with, the adapter it
    built (if any) and the error thrown inside the middleware's calls (if
    any). *)
Record Handled : Type := {
  response : NextApiResponse;
  returned : Promise;
  resolutions : nat;
  prerendered : list Req;
  built : option fakeHandler;
  uncaught : option string
}.

Section Handler.

(** The middleware, as the calls it makes for a given [req], in the order
    in which they take effect ([Next] stands for the call of [next] together
    with the settlement of its fetch). A call that throws ends the sequence. *)
Variable prerendercloud : Req -> list Call.

(** [prerendercloud._got], as the way its promise settles. *)
Variable got : string -> GotOptions -> GotResult.

(** The promise chain of [next] when the fetch settles and the outer
    response accepts the writes; [Live.next] is the chain in general
    ([next_accepting]). *)
Definition next (originallyRequestedUrlWithProtocolAndHost : string) : M unit :=
  match got originallyRequestedUrlWithProtocolAndHost
            {| encoding := None; retries := 3;
               got_user_agent := "prerender-vercel-middleware-nextfn" |} with
  | Fulfilled body =>
      outer (ResSend body) ;;
      callWhenDone
  | Rejected err =>
      outer (ResStatus 500) ;;
      outer (ResSend err) ;;
      callWhenDone
  end.

Definition perform (h : fakeHandler) (call : Call) : M unit :=
  match call with
  | GetHeader key => res.getHeader key ;; mret tt
  | SetHeader key val => res.setHeader key val
  | WriteHead s hs => res.writeHead s hs
  | End body => res.end_ body
  | Next => next (originallyRequestedUrlWithProtocolAndHost h)
  end.

(** The guard [nextApiReq.url && nextApiReq.url.startsWith("/api/prerender")]. *)
Definition requests_itself (nextApiReq : NextApiRequest) : bool :=
  match url nextApiReq with
  | Some u => negb (Js.falsy_string u) && Js.startsWith u "/api/prerender"
  | None => false
  end.

Definition handler (nextApiReq : NextApiRequest) (nextApiResponse : NextApiResponse) : Handled :=
  if requests_itself nextApiReq then
    {| response := nextApiResponse ++ [ResStatus 404; ResSend "not found"];
       returned := Resolved;
       resolutions := 0;
       prerendered := [];
       built := None;
       uncaught := None |}
  else
    let h := convertNextJsToReqResNextHandler nextApiReq nextApiResponse in
    match forEach (perform h) (prerendercloud (req h)) (closure h) with
    | Normal _ c =>
        {| response := nextApiRes c; returned := waitForPromise c;
           resolutions := callWhenDone_calls c;
           prerendered := [req h]; built := Some h; uncaught := None |}
    | Throw e c =>
        {| response := nextApiRes c; returned := waitForPromise c;
           resolutions := callWhenDone_calls c;
           prerendered := [req h]; built := Some h; uncaught := Some e |}
    end.

End Handler.

(** ** Auxiliary definitions for the statements *)

(** The entries of [_headers] that [writeHead] passes to [setHeader]: those
    with a truthy value. *)
Definition applied (_headers : list (string * option string)) : list (string * string) :=
  omap (fun '(k, v) =>
          match v with
          | Some s => if Js.falsy_string s then None else Some (k, s)
          | None => None
          end) _headers.

(** [o[k] = v] for each of the entries, in order. *)
Definition set_all (o : gmap string string) (kvs : list (string * string)) : gmap string string :=
  foldl (fun h '(k, v) => Js.set h k v) o kvs.

(** The calls that end the middleware's work on a request. *)
Definition terminal (call : Call) : bool :=
  match call with
  | End _ | Next => true
  | _ => false
  end.


(** ** Sample requests, states and middleware behaviours *)

Definition bitcoin_request : NextApiRequest :=
  {| url := Some "/asset/bitcoin"; method := Some "GET";
     host := Some "messari.io"; user_agent := Some "twitterbot" |}.


Definition localhost_request : NextApiRequest :=
  {| url := Some "/asset/bitcoin"; method := Some "GET";
     host := Some "localhost:3000"; user_agent := Some "twitterbot" |}.

Definition self_request : NextApiRequest :=
  {| url := Some "/api/prerender"; method := Some "GET";
     host := Some "messari.io"; user_agent := Some "twitterbot" |}.

Definition rewritten_request : NextApiRequest :=
  {| url := Some "/api/prerender/asset/bitcoin"; method := Some "GET";
     host := Some "messari.io"; user_agent := Some "twitterbot" |}.

Definition no_url_request : NextApiRequest :=
  {| url := None; method := Some "GET";
     host := Some "messari.io"; user_agent := Some "twitterbot" |}.

(** The closure once the middleware has relayed a page with its own
    caching header. *)
Definition relayed : Closure :=
  {| headers := {[ "cache-control" := "no-store" ]}; status := Some 200;
     nextApiRes := [ResStatus 200; ResSetHeader "cache-control" "no-store"];
     callWhenDone_calls := 0 |}.

(** The closure of a fresh adapter for [bitcoin_request]. *)
Definition fresh : Closure :=
  closure (convertNextJsToReqResNextHandler bitcoin_request []).

(** The closure once the middleware has relayed a redirect to
    [/canonical-page]. *)
Definition redirected : Closure :=
  {| headers := {[ "location" := "/canonical-page" ]}; status := Some 301;
     nextApiRes := [ResStatus 301; ResSetHeader "location" "/canonical-page"];
     callWhenDone_calls := 0 |}.

(** The closure after [setHeader("location", "")] and [writeHead(301, {})]. *)
Definition empty_location : Closure :=
  {| headers := {[ "location" := "" ]}; status := Some 301;
     nextApiRes := [ResSetHeader "location" ""; ResStatus 301];
     callWhenDone_calls := 0 |}.

Definition renders_page : Req -> list Call :=
  fun _ => [WriteHead 200 [("content-type", Some "text/html")]; End "<html>...</html>"].

Definition redirects_to_canonical : Req -> list Call :=
  fun _ => [WriteHead 301 [("location", Some "/canonical-page")]; End ""].


Definition declines : Req -> list Call := fun _ => [Next].

Definition got_index : string -> GotOptions -> GotResult :=
  fun _ _ => Fulfilled "<html>index</html>".

Definition got_refused : string -> GotOptions -> GotResult :=
  fun _ _ => Rejected "RequestError: connect ECONNREFUSED".

(** ** The middleware's options: [configurePrenderLib] *)

(** What an option function such as [() => true] or [() => []] returns. *)
Inductive Returned : Type :=
| RetBool (b : bool)
| RetList (l : list string).

(** The values passed to [set]: a boolean, or a function that ignores its
    argument. *)
Inductive OptionValue : Type :=
| OptBool (b : bool)
| OptFn (returns : Returned).

(** A library object, by identity. *)
Abbreviation Lib := positive.

(** The [prerendercloud] import of the module. *)
Definition prerendercloud_lib : Lib := 1%positive.

(** One call [lib.set(key, value)]. *)
Record SetCall : Type := {
  set_on : Lib;
  set_key : string;
  set_value : OptionValue
}.

(** The [set] calls of [configurePrenderLib(pcloudlib)], in order: the
    first two are written against the module's import, the last three
    against the parameter. *)
Definition configurePrenderLib (pcloudlib : Lib) : list SetCall :=
  [ {| set_on := prerendercloud_lib; set_key := "metaOnly";
       set_value := OptFn (RetBool true) |};
    {| set_on := prerendercloud_lib; set_key := "whitelistQueryParams";
       set_value := OptFn (RetList []) |};
    {| set_on := pcloudlib; set_key := "disableAjaxBypass";
       set_value := OptBool true |};
    {| set_on := pcloudlib; set_key := "disableAjaxPreload";
       set_value := OptBool true |};
    {| set_on := pcloudlib; set_key := "disableHeadDedupe";
       set_value := OptBool true |} ].

(** The keys set on library [lib]. *)
Definition keys_set_on (lib : Lib) (calls : list SetCall) : list string :=
  set_key <$> filter (fun call => set_on call = lib) calls.

(** ** Auxiliary definitions for the statements on whole runs *)

(** The closure a run ends in, whether it returned or threw. *)
Definition final {A} (o : Completion A) : Closure :=
  match o with
  | Normal _ c => c
  | Throw _ c => c
  end.

(** A call on the outer response that finishes it: a body or a redirect. *)
Definition finishes (call : ResCall) : bool :=
  match call with
  | ResSend _ | ResRedirect _ => true
  | _ => false
  end.

(** How many times the outer response was finished. *)
Definition finished (r : NextApiResponse) : nat :=
  length (filter (fun call => finishes call = true) r).

(** How many of the middleware's calls are [end] or [next]. *)
Definition terminals (calls : list Call) : nat :=
  length (filter (fun call => terminal call = true) calls).

(** Every header of the view's map has been passed to the outer
    response. *)
Definition mirrored (c : Closure) : Prop :=
  ∀ k v, headers c !! k = Some v → ResSetHeader k v ∈ nextApiRes c.

(** ** The adapter on a response that can refuse a call *)

(** The methods of a real [NextApiResponse] can throw: [setHeader] on a
    name that is no header token, [setHeader], [send] and [redirect] once
    the headers have been sent. A [Framework] tells, from the calls made so
    far, whether the next call returns ([None]) or throws (the error's
    string). *)
Abbreviation Framework := (NextApiResponse → ResCall → option string).

(** The response that accepts every call: the recorder used above. *)
Definition accepting : Framework := fun _ _ => None.

(** A response that, like the one of NodeJS, accepts [status] at any time
    and refuses every other call once a body or a redirect has been
    issued. *)
Definition refusing_once_sent : Framework := fun r call =>
  match call with
  | ResStatus _ => None
  | _ => if existsb finishes r then Some "Error [ERR_HTTP_HEADERS_SENT]" else None
  end.

(** [try { m } catch (e) { handler(e) }], also the shape of
    [promise.then(m).catch(handler)]: what [m] did before it threw stays
    done. *)
Definition catch {A} (m : M A) (handler : string → M A) : M A := fun c =>
  match m c with
  | Normal a c' => Normal a c'
  | Throw e c' => handler e c'
  end.

Module Live.

Section Live.

Variable framework : Framework.

(** A method call on [nextApiRes]: recorded when it returns. *)
Definition attempt (call : ResCall) : M unit := fun c =>
  match framework (nextApiRes c) call with
  | None => outer call c
  | Some e => Throw e c
  end.

Definition setHeader (key val : string) : M unit :=
  assign_header key val ;;
  attempt (ResSetHeader key val).

Definition each_header (entry : string * option string) : M unit :=
  let '(headerKey, header) := entry in
  match header with
  | None => mret tt
  | Some v => if Js.falsy_string v then mret tt else setHeader headerKey v
  end.

Definition writeHead (_status : Z) (_headers : list (string * option string)) : M unit :=
  assign_status _status ;;
  attempt (ResStatus _status) ;;
  forEach each_header _headers.

Definition end_ (body : string) : M unit :=
  s ← read status;
  if Js.loose_eq s 301 then
    location ← read (fun c => Js.get (headers c) "location");
    if Js.falsy location then throw "no location header"
    else
      attempt (ResRedirect location) ;;
      callWhenDone
  else
    attempt (ResSetHeader "Cache-Control"
               ("max-age=0, s-maxage=" +:+ pretty CACHE_CONTROL_MAX_AGE_SECONDS
                +:+ ", stale-while-revalidate")) ;;
    attempt (ResSend body) ;;
    callWhenDone.

(** The two handlers of the promise chain of [next]. *)
Definition on_fulfilled (body : string) : M unit :=
  attempt (ResSend body) ;;
  callWhenDone.

Definition on_rejected (err : string) : M unit :=
  attempt (ResStatus 500) ;;
  attempt (ResSend err) ;;
  callWhenDone.

(** [_got(...).then(on_fulfilled).catch(on_rejected)], given how the fetch
    settles, if it does: the second handler also runs when the first one
    throws, and an error thrown by the second one is left unhandled. *)
Definition next (settled : option GotResult) : M unit :=
  match settled with
  | None => mret tt
  | Some (Fulfilled body) => catch (on_fulfilled body) on_rejected
  | Some (Rejected err) => on_rejected err
  end.

(** [prerendercloud._got], which may never settle. *)
Variable got : string → GotOptions → option GotResult.

Definition perform (h : fakeHandler) (call : Call) : M unit :=
  match call with
  | GetHeader key => res.getHeader key ;; mret tt
  | SetHeader key val => setHeader key val
  | WriteHead s hs => writeHead s hs
  | End body => end_ body
  | Next => next (got (originallyRequestedUrlWithProtocolAndHost h)
                    {| encoding := None; retries := 3;
                       got_user_agent := "prerender-vercel-middleware-nextfn" |})
  end.

End Live.

End Live.

(** An error is the adapter's own [no location header], thrown with
    status 301 and a missing or empty location, or it was raised by the
    outer response on a call the adapter made to it. *)
Definition explained (framework : Framework) (e : string) (c : Closure) : Prop :=
  (e = "no location header" ∧ status c = Some 301
   ∧ Js.falsy (Js.get (headers c) "location") = true)
  ∨ ∃ call, framework (nextApiRes c) call = Some e.

(** The closure once a page has been relayed and ended. *)
Definition ended : Closure :=
  {| headers := ∅; status := Some 200;
     nextApiRes := [ResStatus 200;
                    ResSetHeader "Cache-Control"
                      "max-age=0, s-maxage=86400, stale-while-revalidate";
                    ResSend "<html>...</html>"];
     callWhenDone_calls := 1 |}.

(** * Properties *)

(** ** Auxiliary facts *)

Ltac step_m :=
  unfold res.end_, res.writeHead, res.setHeader, res.getHeader, next,
    assign_header, assign_status, outer, callWhenDone, throw, read, write,
    mbind, mret, M_bind, M_ret in *.

Lemma cache_control_value :
  "max-age=0, s-maxage=" +:+ pretty CACHE_CONTROL_MAX_AGE_SECONDS
  +:+ ", stale-while-revalidate"
  = "max-age=0, s-maxage=86400, stale-while-revalidate".
Proof. vm_compute. reflexivity. Qed.

Lemma loose_eq_false (s : option Z) (n : Z) : s ≠ Some n → Js.loose_eq s n = false.
Proof.
  destruct s as [m|]; simpl; [|done].
  intros Hne. apply bool_decide_eq_false. congruence.
Qed.

Lemma header_of_app (r r' : NextApiResponse) (name : string) :
  header_of (r ++ r') name
  = match header_of r' name with
    | Some v => Some v
    | None => header_of r name
    end.
Proof.
  induction r as [|c r IH]; simpl.
  - by destruct (header_of r' name).
  - rewrite IH. by destruct (header_of r' name).
Qed.

Lemma sent_app (r r' : NextApiResponse) : sent (r ++ r') = sent r ++ sent r'.
Proof. unfold sent. apply omap_app. Qed.

Lemma prefix_append (p s : string) : String.prefix p (p +:+ s) = true.
Proof.
  induction p as [|a p IH]; simpl.
  - by destruct s.
  - destruct (Ascii.ascii_dec a a); [exact IH | congruence].
Qed.

(** ** C1: the caching header of a non-redirect [end] *)

(** C1. Whenever [res.end] runs with a recorded status other than 301
    (an unset status included), it returns after exactly three effects, in
    this order: [Cache-Control] is set on the outer response to
    [max-age=0, s-maxage=86400, stale-while-revalidate], the body is sent
    unchanged, and [callWhenDone] is called. On the resulting response the
    [Cache-Control] header, under any letter case, holds that value,
    whatever was set before, and the body is the last one sent. *)
Theorem end_sets_cache_control (body : string) (c : Closure) :
  status c ≠ Some 301 →
  let policy := "max-age=0, s-maxage=86400, stale-while-revalidate" in
  let r' := nextApiRes c ++ [ResSetHeader "Cache-Control" policy; ResSend body] in
  res.end_ body c
  = Normal tt {| headers := headers c; status := status c; nextApiRes := r';
                 callWhenDone_calls := S (callWhenDone_calls c) |}
  ∧ (∀ name, toLowerCase name = "cache-control" → header_of r' name = Some policy)
  ∧ sent r' = sent (nextApiRes c) ++ [body].
Proof.
  intros Hs policy r'. split; [|split].
  - step_m. rewrite (loose_eq_false _ _ Hs), cache_control_value. simpl.
    subst r'. by rewrite <- app_assoc.
  - intros name Hname. subst r'. rewrite header_of_app. simpl.
    rewrite Hname. reflexivity.
  - subst r'. by rewrite sent_app.
Qed.

Lemma end_sets_cache_control_witness :
  status relayed ≠ Some 301
  ∧ header_of (nextApiRes relayed
               ++ [ResSetHeader "Cache-Control"
                     "max-age=0, s-maxage=86400, stale-while-revalidate";
                   ResSend "<html>...</html>"]) "cache-control"
    = Some "max-age=0, s-maxage=86400, stale-while-revalidate".
Proof.
  split; [discriminate|].
  destruct (end_sets_cache_control "<html>...</html>" relayed) as (_ & Hh & _);
    [discriminate|].
  apply Hh. reflexivity.
Defined.

(** ** C2 and C9: the self-recursion guard *)

Lemma requests_itself_prefix (r : NextApiRequest) (rest : string) :
  url r = Some ("/api/prerender" +:+ rest) → requests_itself r = true.
Proof.
  intros Hu. unfold requests_itself. rewrite Hu.
  unfold Js.startsWith. by rewrite prefix_append.
Qed.

Lemma handler_guarded prerendercloud got (r : NextApiRequest) (res0 : NextApiResponse) :
  requests_itself r = true →
  handler prerendercloud got r res0
  = {| response := res0 ++ [ResStatus 404; ResSend "not found"];
       returned := Resolved; resolutions := 0; prerendered := [];
       built := None; uncaught := None |}.
Proof. intros Hg. unfold handler. by rewrite Hg. Qed.

(** C2. A request whose path equals [/api/prerender] is answered with
    status 404 and body [not found]; the returned promise is already
    resolved, the middleware is never called and no adapter is built. *)
Theorem handler_own_path prerendercloud got (r : NextApiRequest) (res0 : NextApiResponse) :
  url r = Some "/api/prerender" →
  let out := handler prerendercloud got r res0 in
  response out = res0 ++ [ResStatus 404; ResSend "not found"]
  ∧ statusCode (response out) = 404
  ∧ sent (response out) = sent res0 ++ ["not found"]
  ∧ returned out = Resolved
  ∧ prerendered out = []
  ∧ built out = None.
Proof.
  intros Hu out. subst out.
  rewrite handler_guarded by (apply (requests_itself_prefix r ""); by rewrite Hu).
  simpl. repeat split.
  - unfold statusCode. rewrite omap_app, last_app. reflexivity.
  - by rewrite sent_app.
Qed.

Lemma handler_own_path_witness :
  url self_request = Some "/api/prerender"
  ∧ response (handler renders_page got_index self_request [])
    = [ResStatus 404; ResSend "not found"]
  ∧ prerendered (handler renders_page got_index self_request []) = [].
Proof.
  split; [reflexivity|].
  destruct (handler_own_path renders_page got_index self_request [])
    as (Hr & _ & _ & _ & Hp & _); [reflexivity|].
  split; [exact Hr | exact Hp].
Defined.

(** C9. The guard matches by prefix: any defined url that starts with
    [/api/prerender], strict extensions included, gets the 404 [not found]
    answer without the middleware being called; a request without url is
    not stopped by the guard: the adapter is built and the middleware is
    called with its [req]. *)
Theorem guard_matches_prefix prerendercloud got (r : NextApiRequest) (res0 : NextApiResponse) :
  (∀ rest, url r = Some ("/api/prerender" +:+ rest) →
     handler prerendercloud got r res0
     = {| response := res0 ++ [ResStatus 404; ResSend "not found"];
          returned := Resolved; resolutions := 0; prerendered := [];
          built := None; uncaught := None |})
  ∧ (url r = None →
     let h := convertNextJsToReqResNextHandler r res0 in
     requests_itself r = false
     ∧ built (handler prerendercloud got r res0) = Some h
     ∧ prerendered (handler prerendercloud got r res0) = [req h]).
Proof.
  split.
  - intros rest Hu. apply handler_guarded. by apply (requests_itself_prefix r rest).
  - intros Hu h.
    assert (Hg : requests_itself r = false) by (unfold requests_itself; by rewrite Hu).
    split; [exact Hg|]. unfold handler. rewrite Hg. fold h.
    by destruct (forEach _ _ _).
Qed.

Lemma guard_matches_prefix_witness :
  url rewritten_request = Some ("/api/prerender" +:+ "/asset/bitcoin")
  ∧ response (handler renders_page got_index rewritten_request [])
    = [ResStatus 404; ResSend "not found"]
  ∧ url no_url_request = None
  ∧ prerendered (handler renders_page got_index no_url_request [])
    = [req (convertNextJsToReqResNextHandler no_url_request [])].
Proof.
  destruct (guard_matches_prefix renders_page got_index rewritten_request [])
    as (Hp & _).
  destruct (guard_matches_prefix renders_page got_index no_url_request [])
    as (_ & Hn).
  split; [reflexivity|]. split.
  - by rewrite (Hp "/asset/bitcoin" eq_refl).
  - split; [reflexivity|]. by destruct (Hn eq_refl) as (_ & _ & Hq).
Defined.

(** ** C7: the encrypted-connection flag of [req] *)

(** Against C7 as stated. A request from an unencrypted origin
    ([localhost], for which the adapter itself picks [http]) and one from
    an encrypted origin carry the same flag: the flag does not tell them
    apart, and it is no function of the host that does. *)
Lemma encrypted_flag_ignores_host :
  protocol localhost_request = "http"
  ∧ protocol bitcoin_request = "https"
  ∧ connection_encrypted (req (convertNextJsToReqResNextHandler localhost_request []))
    = connection_encrypted (req (convertNextJsToReqResNextHandler bitcoin_request []))
  ∧ ¬ (∃ f : option string → bool,
         f (Some "localhost:3000") ≠ f (Some "messari.io")
         ∧ ∀ r, connection_encrypted (req (convertNextJsToReqResNextHandler r []))
                = f (host r)).
Proof.
  repeat split.
  intros (f & Hdiff & Hf). apply Hdiff.
  pose proof (Hf localhost_request) as Hl.
  pose proof (Hf bitcoin_request) as Hb.
  simpl in Hl, Hb. congruence.
Qed.

(** C7, amended. The encrypted-connection flag of [req] is the constant
    [true] for every request, whatever its host. What is derived from the
    host is the protocol of the url that [next] fetches: [http] when the
    host contains [localhost], [https] otherwise (also without host); the
    other fields of [req] are copied from the request. *)
Theorem encrypted_flag_constant (r : NextApiRequest) (res0 : NextApiResponse) :
  let h := convertNextJsToReqResNextHandler r res0 in
  connection_encrypted (req h) = true
  ∧ (protocol r = "http" ∨ protocol r = "https")
  ∧ (protocol r = "http" ↔ ∃ s, host r = Some s ∧ Js.includes s "localhost" = true)
  ∧ originallyRequestedUrlWithProtocolAndHost h
    = protocol r +:+ "://" +:+ Js.interpolate (host r) +:+ Js.interpolate (url r)
  ∧ req_method (req h) = method r
  ∧ req_url (req h) = url r
  ∧ originalUrl (req h) = url r
  ∧ headers_host (req h) = host r
  ∧ headers_user_agent (req h) = user_agent r.
Proof.
  simpl. split; [reflexivity|].
  assert (Hp : (protocol r = "http" ∨ protocol r = "https")
               ∧ (protocol r = "http"
                  ↔ ∃ s, host r = Some s ∧ Js.includes s "localhost" = true)).
  { unfold protocol. destruct (host r) as [s|] eqn:Hh.
    - destruct (Js.includes s "localhost") eqn:Hi.
      + split; [by left|]. split; [|done]. intros _. by exists s.
      + split; [by right|]. split; [done|].
        intros (s' & [= <-] & Hs'). congruence.
    - split; [by right|]. split; [done|]. by intros (s' & [=] & _). }
  destruct Hp as [Hp1 Hp2]. repeat split; try reflexivity; try exact Hp1; apply Hp2.
Qed.

(** ** C6 and C10: the header map of [res] *)

Lemma each_header_run (_headers : list (string * option string)) (c : Closure) :
  forEach res.each_header _headers c
  = Normal tt
      {| headers := set_all (headers c) (applied _headers);
         status := status c;
         nextApiRes := nextApiRes c
                         ++ map (fun '(k, v) => ResSetHeader k v) (applied _headers);
         callWhenDone_calls := callWhenDone_calls c |}.
Proof.
  revert c. induction _headers as [|[k [v|]] hs IH]; intros c.
  - simpl. rewrite app_nil_r. by destruct c.
  - simpl. unfold applied; simpl. fold (applied hs).
    destruct (Js.falsy_string v) eqn:Hv.
    + step_m. apply IH.
    + step_m. rewrite IH. simpl. by rewrite <- app_assoc.
  - simpl. step_m. apply IH.
Qed.

Lemma writeHead_run (_status : Z) (_headers : list (string * option string)) (c : Closure) :
  res.writeHead _status _headers c
  = Normal tt
      {| headers := set_all (headers c) (applied _headers);
         status := Some _status;
         nextApiRes := nextApiRes c ++ ResStatus _status
                         :: map (fun '(k, v) => ResSetHeader k v) (applied _headers);
         callWhenDone_calls := callWhenDone_calls c |}.
Proof.
  unfold res.writeHead. step_m. rewrite each_header_run. simpl.
  by rewrite <- app_assoc.
Qed.

Lemma setHeader_each_run (kvs : list (string * string)) (c : Closure) :
  forEach (fun '(k, v) => res.setHeader k v) kvs c
  = Normal tt
      {| headers := set_all (headers c) kvs;
         status := status c;
         nextApiRes := nextApiRes c ++ map (fun '(k, v) => ResSetHeader k v) kvs;
         callWhenDone_calls := callWhenDone_calls c |}.
Proof.
  revert c. induction kvs as [|[k v] kvs IH]; intros c.
  - simpl. rewrite app_nil_r. by destruct c.
  - simpl. step_m. rewrite IH. simpl. by rewrite <- app_assoc.
Qed.

Lemma applied_elem_of (_headers : list (string * option string)) (k v : string) :
  (k, v) ∈ applied _headers ↔ (k, Some v) ∈ _headers ∧ Js.falsy_string v = false.
Proof.
  unfold applied. rewrite list_elem_of_omap. split.
  - intros ([k' [s|]] & Hin & Heq); [|done].
    destruct (Js.falsy_string s) eqn:Hs; [done|].
    by injection Heq as -> ->.
  - intros [Hin Hv]. exists (k, Some v). split; [done|]. by rewrite Hv.
Qed.

Lemma set_all_lookup_other (o : gmap string string) (kvs : list (string * string)) (k : string) :
  k ∉ kvs.*1 → set_all o kvs !! k = o !! k.
Proof.
  revert o. induction kvs as [|[k' v'] kvs IH]; intros o Hk; [done|].
  simpl in *. apply not_elem_of_cons in Hk as [Hne Hk].
  unfold set_all in *. simpl. rewrite IH by done.
  unfold Js.set. case_bool_decide; [done|]. by rewrite lookup_insert_ne.
Qed.

(** An object has one value per own key. *)
Lemma own_keys_unique {A} (l : list (string * A)) (k : string) (x y : A) :
  NoDup l.*1 → (k, x) ∈ l → (k, y) ∈ l → x = y.
Proof.
  induction l as [|[k' z] l IH]; simpl; intros Hnd Hx Hy.
  - by apply elem_of_nil in Hx.
  - apply NoDup_cons in Hnd as [Hk' Hnd].
    apply elem_of_cons in Hx as [Hx|Hx]; apply elem_of_cons in Hy as [Hy|Hy].
    + congruence.
    + exfalso. apply Hk'. apply list_elem_of_fmap. exists (k, y).
      split; [simpl; congruence | done].
    + exfalso. apply Hk'. apply list_elem_of_fmap. exists (k, x).
      split; [simpl; congruence | done].
    + by apply IH.
Qed.

(** C10. [writeHead] always records the status and applies it to the outer
    response first; it then behaves as [setHeader] called on exactly the
    entries with a truthy value, in order. An entry whose value is
    undefined or the empty string is skipped: its name keeps the value it
    had in the header map, and no [setHeader] for it reaches the outer
    response. *)
Theorem writeHead_skips_falsy
    (_status : Z) (_headers : list (string * option string)) (c : Closure) :
  ∃ c', res.writeHead _status _headers c = Normal tt c'
  ∧ status c' = Some _status
  ∧ nextApiRes c'
    = nextApiRes c ++ ResStatus _status
        :: map (fun '(k, v) => ResSetHeader k v) (applied _headers)
  ∧ headers c' = set_all (headers c) (applied _headers)
  ∧ res.writeHead _status _headers c
    = (assign_status _status ;; outer (ResStatus _status) ;;
       forEach (fun '(k, v) => res.setHeader k v) (applied _headers)) c
  ∧ (∀ k v, (k, v) ∈ applied _headers ↔ (k, Some v) ∈ _headers ∧ v ≠ "")
  ∧ (NoDup _headers.*1 →
     ∀ k v, (k, v) ∈ _headers → Js.falsy_opt v = true →
       headers c' !! k = headers c !! k
       ∧ Js.get (headers c') k = Js.get (headers c) k
       ∧ ∀ v', ResSetHeader k v'
               ∉ map (fun '(k, v) => ResSetHeader k v) (applied _headers)).
Proof.
  eexists. split; [apply writeHead_run|]. simpl.
  split; [done|]. split; [done|]. split; [done|]. split; [|split].
  - rewrite writeHead_run. step_m. rewrite setHeader_each_run. simpl.
    by rewrite <- app_assoc.
  - intros k v. rewrite applied_elem_of. unfold Js.falsy_string.
    rewrite String.eqb_neq. done.
  - intros Hnd k v Hin Hv.
    assert (Hk : k ∉ (applied _headers).*1).
    { intros ((k' & v') & -> & Hin')%list_elem_of_fmap. simpl in *.
      apply applied_elem_of in Hin' as [Hin' Hv'].
      assert (v = Some v') as ->.
      { by eapply own_keys_unique. }
      simpl in Hv. congruence. }
    assert (Hl : set_all (headers c) (applied _headers) !! k = headers c !! k)
      by (by apply set_all_lookup_other).
    split; [done|]. split; [unfold Js.get; by rewrite Hl|].
    intros v' ((k' & v'') & [= -> ->] & Hin')%list_elem_of_fmap.
    apply Hk. apply list_elem_of_fmap. by exists (k', v'').
Qed.

Lemma writeHead_skips_falsy_witness :
  NoDup [("location", Some "/canonical-page"); ("etag", None); ("vary", Some "")].*1
  ∧ ∃ c', res.writeHead 301
            [("location", Some "/canonical-page"); ("etag", None); ("vary", Some "")]
            fresh = Normal tt c'
          ∧ nextApiRes c' = [ResStatus 301; ResSetHeader "location" "/canonical-page"]
          ∧ headers c' !! "vary" = None.
Proof.
  assert (Hnd : NoDup [("location", Some "/canonical-page"); ("etag", None);
                       ("vary", Some "")].*1)
    by (apply (bool_decide_unpack _); vm_compute; exact I).
  split; [exact Hnd|].
  destruct (writeHead_skips_falsy 301
              [("location", Some "/canonical-page"); ("etag", None); ("vary", Some "")]
              fresh) as (c' & Hrun & _ & Hres & _ & _ & _ & Hskip).
  exists c'. split; [exact Hrun|]. split; [exact Hres|].
  destruct (Hskip Hnd "vary" (Some "")) as (Hl & _);
    [apply (bool_decide_unpack _); vm_compute; exact I | reflexivity |].
  rewrite Hl. reflexivity.
Defined.

(** For every header name but [__proto__], [getHeader] after [setHeader]
    returns the value set, and the pair has reached the outer response by
    then. *)
Lemma setHeader_getHeader (key val : string) (c : Closure) :
  key ≠ "__proto__" →
  (res.setHeader key val ;; res.getHeader key) c
  = Normal (Js.Str val)
      {| headers := <[key:=val]> (headers c); status := status c;
         nextApiRes := nextApiRes c ++ [ResSetHeader key val];
         callWhenDone_calls := callWhenDone_calls c |}.
Proof.
  intros Hk. step_m. simpl. unfold Js.set, Js.get.
  rewrite bool_decide_eq_false_2 by done. by rewrite lookup_insert_eq.
Qed.

(** C6, at the name [__proto__]. [setHeader("__proto__", "x")] mirrors the
    pair to the outer response but leaves the header map as it was, and
    [getHeader("__proto__")] then returns the inherited [Object.prototype]
    property instead of ["x"]. *)
Theorem setHeader_proto_lost :
  (res.setHeader "__proto__" "x" ;; res.getHeader "__proto__") fresh
  = Normal (Js.Inherited "__proto__")
      {| headers := ∅; status := None;
         nextApiRes := [ResSetHeader "__proto__" "x"];
         callWhenDone_calls := 0 |}
  ∧ Js.Inherited "__proto__" ≠ Js.Str "x".
Proof. split; [reflexivity | discriminate]. Qed.

(** ** C4: [end] on a 301 *)

(** Against C4 as stated. A location header that was stored, but with the
    empty string, makes [end] throw as if there were none. *)
Lemma end_empty_location_throws :
  (res.setHeader "location" "" ;; res.writeHead 301 []) fresh
  = Normal tt empty_location
  ∧ headers empty_location !! "location" = Some ""
  ∧ res.end_ "" empty_location = Throw "no location header" empty_location.
Proof. repeat split. Qed.

(** C4, amended. When [end] runs with recorded status 301 and the header
    map holds a non-empty [location], the only effects are a redirect of
    the outer response to exactly that value and one call of
    [callWhenDone]: no body and no caching header are written. When the
    map holds no [location], or the empty string, [end] throws
    [no location header] and has no effect at all. *)
Theorem end_redirect (body : string) (c : Closure) :
  status c = Some 301 →
  (∀ location, headers c !! "location" = Some location → location ≠ "" →
     res.end_ body c
     = Normal tt {| headers := headers c; status := status c;
                    nextApiRes := nextApiRes c ++ [ResRedirect (Js.Str location)];
                    callWhenDone_calls := S (callWhenDone_calls c) |})
  ∧ (headers c !! "location" = None ∨ headers c !! "location" = Some "" →
     res.end_ body c = Throw "no location header" c).
Proof.
  intros Hs. split.
  - intros location Hl Hne. step_m. rewrite Hs. simpl.
    unfold Js.get. rewrite Hl. simpl.
    apply String.eqb_neq in Hne. unfold Js.falsy_string. rewrite Hne.
    by rewrite Hs.
  - intros Hl. step_m. rewrite Hs. simpl. unfold Js.get.
    destruct Hl as [-> | ->]; reflexivity.
Qed.

Lemma end_redirect_witness :
  status redirected = Some 301
  ∧ headers redirected !! "location" = Some "/canonical-page"
  ∧ res.end_ "ignored" redirected
    = Normal tt {| headers := headers redirected; status := status redirected;
                   nextApiRes := nextApiRes redirected
                                   ++ [ResRedirect (Js.Str "/canonical-page")];
                   callWhenDone_calls := 1 |}
  ∧ res.end_ "ignored" {| headers := ∅; status := Some 301; nextApiRes := [];
                          callWhenDone_calls := 0 |}
    = Throw "no location header"
        {| headers := ∅; status := Some 301; nextApiRes := [];
           callWhenDone_calls := 0 |}.
Proof.
  split; [reflexivity|]. split; [reflexivity|]. split.
  - destruct (end_redirect "ignored" redirected eq_refl) as (Hr & _).
    apply (Hr "/canonical-page"); [reflexivity | discriminate].
  - destruct (end_redirect "ignored"
                {| headers := ∅; status := Some 301; nextApiRes := [];
                   callWhenDone_calls := 0 |} eq_refl) as (_ & Ht).
    apply Ht. left. reflexivity.
Defined.

(** ** C5: the fallback continuation *)

Ltac live_m :=
  unfold Live.perform, Live.next, Live.on_fulfilled, Live.on_rejected, Live.end_,
    Live.writeHead, Live.setHeader, Live.attempt, catch in *;
  step_m.

(** On a response that accepts every call and with a fetch that settles,
    the promise chain of [next] is the two-way split [next]. *)
Lemma next_accepting (got : string → GotOptions → GotResult) (target : string)
    (c : Closure) :
  Live.next accepting
    (Some (got target {| encoding := None; retries := 3;
                         got_user_agent := "prerender-vercel-middleware-nextfn" |})) c
  = next got target c.
Proof. live_m. by destruct (got _ _). Qed.

(** Against C5 as stated. On a response that was already ended, a fetch
    that succeeds makes [next] run both handlers: the send of the first
    one is refused, the second one sets status 500 and its send is refused
    too, so the error is left unhandled and [callWhenDone] is not called.
    And while the fetch does not settle, neither outcome occurs. *)
Lemma next_runs_both_handlers :
  Live.next refusing_once_sent (Some (Fulfilled "<html>index</html>")) ended
  = Throw "Error [ERR_HTTP_HEADERS_SENT]"
      {| headers := headers ended; status := status ended;
         nextApiRes := nextApiRes ended ++ [ResStatus 500];
         callWhenDone_calls := callWhenDone_calls ended |}
  ∧ Live.next refusing_once_sent None fresh = Normal tt fresh.
Proof. split; reflexivity. Qed.

(** C5, amended. When the fetch of [next] settles and the outer response
    accepts the write, exactly one of two outcomes occurs: on success the
    fetched body is sent and no status is set, on failure status 500 is
    set and the error's string is sent; either way [callWhenDone] is
    called exactly once. When the response refuses the send of the
    success handler, the failure handler runs as well, with the error of
    that send. While the fetch has not settled nothing happens. In no
    case is [callWhenDone] called more than once, or called when [next]
    ends with an error, and the view's map and status are left alone. *)
Theorem next_one_outcome (framework : Framework) (settled : option GotResult)
    (c : Closure) :
  (∀ body, settled = Some (Fulfilled body) →
     framework (nextApiRes c) (ResSend body) = None →
     Live.next framework settled c
     = Normal tt {| headers := headers c; status := status c;
                    nextApiRes := nextApiRes c ++ [ResSend body];
                    callWhenDone_calls := S (callWhenDone_calls c) |})
  ∧ (∀ err, settled = Some (Rejected err) →
     framework (nextApiRes c) (ResStatus 500) = None →
     framework (nextApiRes c ++ [ResStatus 500]) (ResSend err) = None →
     Live.next framework settled c
     = Normal tt {| headers := headers c; status := status c;
                    nextApiRes := nextApiRes c ++ [ResStatus 500; ResSend err];
                    callWhenDone_calls := S (callWhenDone_calls c) |})
  ∧ (∀ body e, settled = Some (Fulfilled body) →
     framework (nextApiRes c) (ResSend body) = Some e →
     Live.next framework settled c = Live.on_rejected framework e c)
  ∧ (settled = None → Live.next framework settled c = Normal tt c)
  ∧ (∀ c', Live.next framework settled c = Normal tt c' →
     (callWhenDone_calls c' ≤ S (callWhenDone_calls c))%nat
     ∧ headers c' = headers c ∧ status c' = status c)
  ∧ (∀ e c', Live.next framework settled c = Throw e c' →
     callWhenDone_calls c' = callWhenDone_calls c
     ∧ headers c' = headers c ∧ status c' = status c).
Proof.
  split; [|split; [|split; [|split]]].
  - intros body -> Hs. live_m. rewrite Hs. reflexivity.
  - intros err -> H5 Hs. live_m. rewrite H5. simpl. rewrite Hs. simpl.
    by rewrite <- app_assoc.
  - intros body e -> Hs. live_m. by rewrite Hs.
  - by intros ->.
  - assert (Hrej : ∀ err,
              (∀ c', Live.on_rejected framework err c = Normal tt c' →
                 (callWhenDone_calls c' ≤ S (callWhenDone_calls c))%nat
                 ∧ headers c' = headers c ∧ status c' = status c)
              ∧ (∀ e c', Live.on_rejected framework err c = Throw e c' →
                 callWhenDone_calls c' = callWhenDone_calls c
                 ∧ headers c' = headers c ∧ status c' = status c)).
    { intros err. live_m.
      destruct (framework (nextApiRes c) (ResStatus 500)); simpl.
      - split; [done|]. by intros e c' [= <- <-].
      - destruct (framework (nextApiRes c ++ [ResStatus 500]) (ResSend err)); simpl.
        + split; [done|]. by intros e c' [= <- <-].
        + split; [|done]. intros c' [= <-]. simpl. split; [lia | done]. }
    destruct settled as [[body|err]|].
    + unfold Live.next, catch.
      destruct (Live.on_fulfilled framework body c) as [[] c1|e1 c1] eqn:Hf.
      * live_m. destruct (framework (nextApiRes c) (ResSend body)); simpl in Hf; [done|].
        injection Hf as <-.
        split; [|done]. intros c' [= <-]. simpl. split; [lia | done].
      * live_m. destruct (framework (nextApiRes c) (ResSend body)); simpl in Hf; [|done].
        injection Hf as He Hc. subst e1 c1. apply Hrej.
    + apply (Hrej err).
    + simpl. split; [|done]. intros c' [= <-]. split; [lia | done].
Qed.

Lemma next_one_outcome_witness :
  accepting (nextApiRes fresh) (ResSend "<html>index</html>") = None
  ∧ Live.next accepting (Some (Fulfilled "<html>index</html>")) fresh
    = Normal tt {| headers := ∅; status := None;
                   nextApiRes := [ResSend "<html>index</html>"];
                   callWhenDone_calls := 1 |}
  ∧ Live.next accepting (Some (Rejected "RequestError: connect ECONNREFUSED")) fresh
    = Normal tt {| headers := ∅; status := None;
                   nextApiRes := [ResStatus 500;
                                  ResSend "RequestError: connect ECONNREFUSED"];
                   callWhenDone_calls := 1 |}.
Proof.
  split; [reflexivity|]. split.
  - destruct (next_one_outcome accepting (Some (Fulfilled "<html>index</html>")) fresh)
      as (Hok & _).
    apply (Hok "<html>index</html>"); reflexivity.
  - destruct (next_one_outcome accepting
                (Some (Rejected "RequestError: connect ECONNREFUSED")) fresh)
      as (_ & Hko & _).
    apply (Hko "RequestError: connect ECONNREFUSED"); reflexivity.
Defined.

(** ** C3 and C8: whole requests *)





Lemma perform_same_target got (h1 h2 : fakeHandler) (calls : list Call) (c : Closure) :
  originallyRequestedUrlWithProtocolAndHost h1
  = originallyRequestedUrlWithProtocolAndHost h2 →
  forEach (perform got h1) calls c = forEach (perform got h2) calls c.
Proof.
  intros Ht. revert c. induction calls as [|call calls IH]; intros c; [done|].
  simpl. unfold mbind, M_bind.
  assert (Hp : perform got h1 call c = perform got h2 call c)
    by (destruct call; simpl; by rewrite ?Ht).
  rewrite Hp. destruct (perform got h2 call c); [apply IH | done].
Qed.








(** ** The scenarios of the specification *)

Example scenario_page :
  handler renders_page got_index bitcoin_request []
  = {| response := [ResStatus 200; ResSetHeader "content-type" "text/html";
                    ResSetHeader "Cache-Control"
                      "max-age=0, s-maxage=86400, stale-while-revalidate";
                    ResSend "<html>...</html>"];
       returned := Resolved; resolutions := 1;
       prerendered := [req (convertNextJsToReqResNextHandler bitcoin_request [])];
       built := Some (convertNextJsToReqResNextHandler bitcoin_request []);
       uncaught := None |}.
Proof. reflexivity. Qed.

Example scenario_redirect :
  response (handler redirects_to_canonical got_index bitcoin_request [])
  = [ResStatus 301; ResSetHeader "location" "/canonical-page";
     ResRedirect (Js.Str "/canonical-page")]
  ∧ returned (handler redirects_to_canonical got_index bitcoin_request []) = Resolved.
Proof. split; reflexivity. Qed.

Example scenario_fallback :
  response (handler declines got_index localhost_request [])
  = [ResSend "<html>index</html>"]
  ∧ response (handler declines got_refused localhost_request [])
    = [ResStatus 500; ResSend "RequestError: connect ECONNREFUSED"]
  ∧ originallyRequestedUrlWithProtocolAndHost
      (convertNextJsToReqResNextHandler localhost_request [])
    = "http://localhost:3000/asset/bitcoin".
Proof. repeat split. Qed.

(** * Further properties of the adapter *)

(** ** The guard, exactly *)

Lemma prefix_inv (p s : string) :
  String.prefix p s = true → ∃ rest, s = p +:+ rest.
Proof.
  revert s. induction p as [|a p IH]; intros s Hp.
  - by exists s.
  - destruct s as [|b s]; simpl in Hp; [done|].
    destruct (Ascii.ascii_dec a b) as [->|]; [|done].
    destruct (IH s Hp) as (rest & ->). by exists rest.
Qed.



(** ** Invariants of a run of the middleware's calls *)

Lemma final_forEach_cons {A} (f : A → M unit) (x : A) (xs : list A) (c : Closure) :
  final (forEach f (x :: xs) c)
  = match f x c with
    | Normal _ c' => final (forEach f xs c')
    | Throw _ c' => c'
    end.
Proof. simpl. unfold mbind, M_bind. by destruct (f x c). Qed.

(** What holds initially and is kept by every call holds when the run
    ends, whether it returns or throws. *)
Lemma run_invariant got (h : fakeHandler) (P : Closure → Prop) :
  (∀ call c, P c → P (final (perform got h call c))) →
  ∀ calls c, P c → P (final (forEach (perform got h) calls c)).
Proof.
  intros Hstep calls. induction calls as [|call calls IH]; intros c Hc; [done|].
  rewrite final_forEach_cons. specialize (Hstep call c Hc).
  destruct (perform got h call c) as [[] c1|e c1]; simpl in Hstep; [by apply IH | done].
Qed.

Lemma finished_app (r r' : NextApiResponse) :
  finished (r ++ r') = (finished r + finished r')%nat.
Proof. unfold finished. by rewrite filter_app, length_app. Qed.

Lemma finished_cons_status (s : Z) (r : NextApiResponse) :
  finished (ResStatus s :: r) = finished r.
Proof. unfold finished. by rewrite filter_cons_False. Qed.

Lemma finished_setHeaders (kvs : list (string * string)) :
  finished (map (fun '(k, v) => ResSetHeader k v) kvs) = 0%nat.
Proof. induction kvs as [|[k v] kvs IH]; [done|]. exact IH. Qed.

Lemma loose_eq_true (s : option Z) (n : Z) : Js.loose_eq s n = true → s = Some n.
Proof.
  destruct s as [m|]; simpl; [|done].
  intros Hm%bool_decide_eq_true. by rewrite Hm.
Qed.

(** One call: the resolver is called once more exactly when the outer
    response is finished once more. *)
Lemma perform_balance got (h : fakeHandler) (call : Call) (c : Closure) :
  let c' := final (perform got h call c) in
  (callWhenDone_calls c' + finished (nextApiRes c)
   = callWhenDone_calls c + finished (nextApiRes c'))%nat
  ∧ (callWhenDone_calls c ≤ callWhenDone_calls c')%nat.
Proof.
  destruct call as [key|key val|s hs|body|]; simpl.
  - done.
  - rewrite finished_app. unfold finished at 3. simpl. split; lia.
  - rewrite writeHead_run. simpl.
    rewrite finished_app, finished_cons_status, finished_setHeaders. split; lia.
  - step_m. destruct (Js.loose_eq (status c) 301); simpl.
    + destruct (Js.falsy (Js.get (headers c) "location")); simpl; [done|].
      rewrite finished_app. unfold finished at 3. simpl. split; lia.
    + rewrite <- app_assoc, finished_app. unfold finished at 3. simpl. split; lia.
  - step_m. destruct (got _ _); simpl.
    + rewrite finished_app. unfold finished at 3. simpl. split; lia.
    + rewrite <- app_assoc, finished_app. unfold finished at 3. simpl. split; lia.
Qed.

Lemma run_balance got (h : fakeHandler) (calls : list Call) (c : Closure) :
  let c' := final (forEach (perform got h) calls c) in
  (callWhenDone_calls c' + finished (nextApiRes c)
   = callWhenDone_calls c + finished (nextApiRes c'))%nat
  ∧ (callWhenDone_calls c ≤ callWhenDone_calls c')%nat.
Proof.
  intros c'. subst c'.
  apply (run_invariant got h
           (fun x => (callWhenDone_calls x + finished (nextApiRes c)
                      = callWhenDone_calls c + finished (nextApiRes x))%nat
                     ∧ (callWhenDone_calls c ≤ callWhenDone_calls x)%nat)).
  - intros call x [Hx1 Hx2].
    destruct (perform_balance got h call x) as [Hb1 Hb2]. split; lia.
  - split; lia.
Qed.

(** Over any run of middleware calls, from any state and whether the run
    returns or throws, [callWhenDone] is called exactly as many times as
    the adapter finishes the outer response with a body or a redirect, and
    the number of its calls never decreases: a resolved promise stays
    resolved. *)
Theorem resolutions_match_finishes got
    (h : fakeHandler) (calls : list Call) (c : Closure) :
  let c' := final (forEach (perform got h) calls c) in
  (callWhenDone_calls c' + finished (nextApiRes c)
   = callWhenDone_calls c + finished (nextApiRes c'))%nat
  ∧ (callWhenDone_calls c ≤ callWhenDone_calls c')%nat
  ∧ (waitForPromise c = Resolved → waitForPromise c' = Resolved).
Proof.
  intros c'. destruct (run_balance got h calls c) as [H1 H2]. fold c' in H1, H2.
  split; [exact H1|]. split; [exact H2|].
  unfold waitForPromise.
  destruct (0 <? callWhenDone_calls c)%nat eqn:Hc; [|done].
  apply Nat.ltb_lt in Hc. intros _.
  assert (Hc' : (0 <? callWhenDone_calls c')%nat = true) by (apply Nat.ltb_lt; lia).
  by rewrite Hc'.
Qed.


Lemma mirrored_set (o : gmap string string) (r : NextApiResponse) (key val : string) :
  (∀ k v, o !! k = Some v → ResSetHeader k v ∈ r) →
  ∀ k v, Js.set o key val !! k = Some v → ResSetHeader k v ∈ r ++ [ResSetHeader key val].
Proof.
  intros Hm k v. unfold Js.set. rewrite elem_of_app, list_elem_of_singleton.
  case_bool_decide; [by left; apply Hm|].
  rewrite lookup_insert. case_decide as Hk.
  - intros [= <-]. right. by rewrite Hk.
  - left. by apply Hm.
Qed.

Lemma mirrored_set_all (kvs : list (string * string)) (o : gmap string string)
    (r : NextApiResponse) :
  (∀ k v, o !! k = Some v → ResSetHeader k v ∈ r) →
  ∀ k v, set_all o kvs !! k = Some v →
         ResSetHeader k v ∈ r ++ map (fun '(k, v) => ResSetHeader k v) kvs.
Proof.
  revert o r. induction kvs as [|[key val] kvs IH]; intros o r Hm k v.
  - simpl. rewrite app_nil_r. apply Hm.
  - simpl. rewrite (cons_middle _ r), app_assoc.
    apply (IH (Js.set o key val) (r ++ [ResSetHeader key val])).
    by apply mirrored_set.
Qed.

Lemma perform_mirrored got (h : fakeHandler) (call : Call) (c : Closure) :
  mirrored c → mirrored (final (perform got h call c)).
Proof.
  unfold mirrored. intros Hm.
  destruct call as [key|key val|s hs|body|]; simpl.
  - exact Hm.
  - by apply mirrored_set.
  - rewrite writeHead_run. simpl. rewrite (cons_middle _ (nextApiRes c)), app_assoc.
    apply mirrored_set_all. intros k v Hk. apply elem_of_app. left. by apply Hm.
  - step_m. destruct (Js.loose_eq (status c) 301); simpl.
    + destruct (Js.falsy (Js.get (headers c) "location")); simpl; [exact Hm|].
      intros k v Hk. apply elem_of_app. left. by apply Hm.
    + intros k v Hk. apply elem_of_app. left. apply elem_of_app. left. by apply Hm.
  - step_m. destruct (got _ _); simpl; intros k v Hk.
    + apply elem_of_app. left. by apply Hm.
    + apply elem_of_app. left. apply elem_of_app. left. by apply Hm.
Qed.

(** Whatever calls the middleware makes on a fresh adapter, and whether
    the run returns or throws, every header held by the view's map has
    been passed with the same name and value to [setHeader] of the outer
    response. *)
Theorem headers_always_mirrored got
    (r : NextApiRequest) (res0 : NextApiResponse) (calls : list Call) :
  let h := convertNextJsToReqResNextHandler r res0 in
  let c' := final (forEach (perform got h) calls (closure h)) in
  ∀ k v, headers c' !! k = Some v → ResSetHeader k v ∈ nextApiRes c'.
Proof.
  intros h c'. subst c'.
  apply (run_invariant got h mirrored).
  - intros call c. apply perform_mirrored.
  - intros k v Hk. simpl in Hk. by rewrite lookup_empty in Hk.
Qed.


(** ** The header map of the view *)


(** Storing a header under one name leaves what [getHeader] returns for
    every other name as it was: names are compared exactly, letter case
    included. *)
Theorem setHeader_other_name (key val other : string) (c : Closure) :
  key ≠ other →
  ∃ v c', res.getHeader other c = Normal v c
          ∧ (res.setHeader key val ;; res.getHeader other) c = Normal v c'.
Proof.
  intros Hne.
  exists (Js.get (headers c) other),
    {| headers := Js.set (headers c) key val; status := status c;
       nextApiRes := nextApiRes c ++ [ResSetHeader key val];
       callWhenDone_calls := callWhenDone_calls c |}.
  split; [reflexivity|]. step_m. simpl. f_equal.
  unfold Js.set. case_bool_decide; [reflexivity|].
  unfold Js.get. by rewrite lookup_insert_ne.
Qed.

Lemma setHeader_other_name_witness :
  "Vary" ≠ "vary"
  ∧ ∃ c', (res.setHeader "Vary" "User-Agent" ;; res.getHeader "vary") fresh
          = Normal Js.Undefined c'.
Proof.
  split; [discriminate|].
  destruct (setHeader_other_name "Vary" "User-Agent" "vary" fresh)
    as (v & c' & Hget & Hrun); [discriminate|].
  exists c'. injection Hget as <-. exact Hrun.
Defined.

(** Setting the same header twice keeps the second value in the view's
    map, passes both values in order to the outer response, and leaves
    the view and the outer response in agreement on that header. *)
Theorem setHeader_twice (key v1 v2 : string) (c : Closure) :
  key ≠ "__proto__" →
  let r' := nextApiRes c ++ [ResSetHeader key v1; ResSetHeader key v2] in
  (res.setHeader key v1 ;; res.setHeader key v2 ;; res.getHeader key) c
  = Normal (Js.Str v2)
      {| headers := <[key:=v2]> (headers c); status := status c;
         nextApiRes := r'; callWhenDone_calls := callWhenDone_calls c |}
  ∧ header_of r' key = Some v2.
Proof.
  intros Hk r'. split.
  - step_m. simpl. unfold Js.set, Js.get.
    rewrite !bool_decide_eq_false_2 by done.
    rewrite lookup_insert_eq, insert_insert_eq. subst r'. by rewrite <- app_assoc.
  - subst r'. rewrite header_of_app. simpl. by rewrite String.eqb_refl.
Qed.

Lemma setHeader_twice_witness :
  "vary" ≠ "__proto__"
  ∧ header_of (nextApiRes fresh ++ [ResSetHeader "vary" "a"; ResSetHeader "vary" "b"])
      "vary" = Some "b".
Proof.
  split; [discriminate|].
  destruct (setHeader_twice "vary" "a" "b" fresh) as (_ & Hh); [discriminate|].
  exact Hh.
Defined.

Lemma set_all_app (o : gmap string string) (kvs kvs' : list (string * string)) :
  set_all o (kvs ++ kvs') = set_all (set_all o kvs) kvs'.
Proof. unfold set_all. apply foldl_app. Qed.

(** A second [writeHead] replaces the recorded status and adds its truthy
    headers on top of the first one's: the status is not fixed by the
    first call, and neither call touches the resolver. *)
Theorem writeHead_twice (s1 s2 : Z) (hs1 hs2 : list (string * option string))
    (c : Closure) :
  (res.writeHead s1 hs1 ;; res.writeHead s2 hs2) c
  = Normal tt
      {| headers := set_all (headers c) (applied hs1 ++ applied hs2);
         status := Some s2;
         nextApiRes :=
           nextApiRes c
           ++ ResStatus s1 :: map (fun '(k, v) => ResSetHeader k v) (applied hs1)
           ++ ResStatus s2 :: map (fun '(k, v) => ResSetHeader k v) (applied hs2);
         callWhenDone_calls := callWhenDone_calls c |}.
Proof.
  unfold mbind, M_bind. rewrite writeHead_run, writeHead_run. simpl.
  rewrite set_all_app. f_equal. f_equal. by rewrite <- app_assoc.
Qed.

(** [end] and [next] never modify the view's header map or the recorded
    status, whether they return or throw; a failed fetch writes status
    500 to the outer response only. *)
Theorem terminal_keeps_view got (h : fakeHandler) (call : Call) (c : Closure) :
  terminal call = true →
  let c' := final (perform got h call c) in
  headers c' = headers c ∧ status c' = status c.
Proof.
  destruct call as [key|key val|s hs|body|]; simpl; intros Ht; try done.
  - step_m. destruct (Js.loose_eq (status c) 301); simpl; [|done].
    by destruct (Js.falsy (Js.get (headers c) "location")).
  - step_m. by destruct (got _ _).
Qed.

Lemma terminal_keeps_view_witness :
  terminal Next = true
  ∧ status (final (perform got_refused
                     (convertNextJsToReqResNextHandler bitcoin_request [])
                     Next redirected)) = Some 301.
Proof.
  split; [reflexivity|].
  destruct (terminal_keeps_view got_refused
              (convertNextJsToReqResNextHandler bitcoin_request []) Next redirected)
    as (_ & Hs); [reflexivity|].
  rewrite Hs. reflexivity.
Defined.

(** ** A relayed answer: [writeHead] followed by [end] *)

Lemma statuses_setHeaders (kvs : list (string * string)) :
  omap (fun c => match c with ResStatus n => Some n | _ => None end)
    (map (fun '(k, v) => ResSetHeader k v) kvs) = [].
Proof. induction kvs as [|[k v] kvs IH]; [done|]. exact IH. Qed.

Lemma sent_setHeaders (kvs : list (string * string)) :
  sent (map (fun '(k, v) => ResSetHeader k v) kvs) = [].
Proof. induction kvs as [|[k v] kvs IH]; [done|]. exact IH. Qed.

(** When the middleware relays a page, with any status other than 301 and
    any headers, and then ends it, the outer response gets that status,
    the truthy headers, the fixed caching policy (also over a caching
    header among the relayed ones) and the body, and the resolver is
    called once. *)
Theorem relayed_page (s : Z) (hs : list (string * option string))
    (body : string) (c : Closure) :
  s ≠ 301 →
  let policy := "max-age=0, s-maxage=86400, stale-while-revalidate" in
  let r' := nextApiRes c ++ ResStatus s
              :: map (fun '(k, v) => ResSetHeader k v) (applied hs)
              ++ [ResSetHeader "Cache-Control" policy; ResSend body] in
  (res.writeHead s hs ;; res.end_ body) c
  = Normal tt {| headers := set_all (headers c) (applied hs); status := Some s;
                 nextApiRes := r';
                 callWhenDone_calls := S (callWhenDone_calls c) |}
  ∧ statusCode r' = s
  ∧ header_of r' "cache-control" = Some policy
  ∧ sent r' = sent (nextApiRes c) ++ [body].
Proof.
  intros Hs policy r'. split; [|split; [|split]].
  - unfold mbind at 1, M_bind. rewrite writeHead_run.
    step_m. simpl. rewrite bool_decide_eq_false_2 by done.
    rewrite cache_control_value. simpl. subst r' policy.
    f_equal. f_equal. by rewrite <- !app_assoc.
  - subst r'. unfold statusCode. rewrite omap_app. simpl.
    rewrite omap_app, statuses_setHeaders. simpl.
    by rewrite last_snoc.
  - subst r'. rewrite (cons_middle _ (nextApiRes c)), !app_assoc, header_of_app.
    reflexivity.
  - subst r'. rewrite sent_app. change (sent (ResStatus s :: ?l)) with (sent l).
    by rewrite sent_app, sent_setHeaders.
Qed.

Lemma relayed_page_witness :
  200 ≠ 301
  ∧ header_of
      ([] ++ ResStatus 200
         :: map (fun '(k, v) => ResSetHeader k v)
              (applied [("cache-control", Some "no-store"); ("etag", None)])
         ++ [ResSetHeader "Cache-Control"
               "max-age=0, s-maxage=86400, stale-while-revalidate";
             ResSend "<html>...</html>"]) "cache-control"
    = Some "max-age=0, s-maxage=86400, stale-while-revalidate".
Proof.
  split; [discriminate|].
  destruct (relayed_page 200 [("cache-control", Some "no-store"); ("etag", None)]
              "<html>...</html>" fresh) as (_ & _ & Hh & _); [discriminate|].
  exact Hh.
Defined.

Lemma applied_keys_NoDup (hs : list (string * option string)) :
  NoDup hs.*1 → NoDup (applied hs).*1.
Proof.
  induction hs as [|[k v] hs IH]; simpl; intros Hnd; [constructor|].
  apply NoDup_cons in Hnd as [Hk Hnd].
  assert (Hkeep : ∀ s, NoDup ((k, s) :: applied hs).*1).
  { intros s. simpl. apply NoDup_cons. split; [|by apply IH].
    intros ((k' & s') & Heq & Hin)%list_elem_of_fmap. simpl in Heq. subst k'.
    apply applied_elem_of in Hin as [Hin _].
    apply Hk. apply list_elem_of_fmap. by exists (k, Some s'). }
  unfold applied. simpl. fold (applied hs).
  destruct v as [s|]; [|by apply IH].
  destruct (Js.falsy_string s); [by apply IH | apply Hkeep].
Qed.

Lemma set_all_lookup_in (kvs : list (string * string)) (o : gmap string string)
    (k v : string) :
  NoDup kvs.*1 → (k, v) ∈ kvs → k ≠ "__proto__" → set_all o kvs !! k = Some v.
Proof.
  revert o. induction kvs as [|[k' v'] kvs IH]; intros o Hnd Hin Hk.
  - by apply elem_of_nil in Hin.
  - simpl in Hnd. apply NoDup_cons in Hnd as [Hk' Hnd].
    apply elem_of_cons in Hin as [[= <- <-]|Hin].
    + change (set_all o ((k, v) :: kvs)) with (set_all (Js.set o k v) kvs).
      rewrite set_all_lookup_other by done.
      unfold Js.set. rewrite bool_decide_eq_false_2 by done.
      apply lookup_insert_eq.
    + change (set_all o ((k', v') :: kvs)) with (set_all (Js.set o k' v') kvs).
      by apply IH.
Qed.

(** When the middleware relays a 301 whose headers hold a non-empty
    [location] and then ends it, the outer response is redirected to
    exactly that location, whatever location the view held before; no
    body is sent and the resolver is called once. *)
Theorem relayed_redirect (hs : list (string * option string))
    (target body : string) (c : Closure) :
  NoDup hs.*1 → ("location", Some target) ∈ hs → target ≠ "" →
  let r' := nextApiRes c ++ ResStatus 301
              :: map (fun '(k, v) => ResSetHeader k v) (applied hs)
              ++ [ResRedirect (Js.Str target)] in
  (res.writeHead 301 hs ;; res.end_ body) c
  = Normal tt {| headers := set_all (headers c) (applied hs); status := Some 301;
                 nextApiRes := r';
                 callWhenDone_calls := S (callWhenDone_calls c) |}
  ∧ sent r' = sent (nextApiRes c)
  ∧ finished r' = S (finished (nextApiRes c)).
Proof.
  intros Hnd Hin Ht r'.
  assert (Hl : set_all (headers c) (applied hs) !! "location" = Some target).
  { apply set_all_lookup_in; [by apply applied_keys_NoDup | | done].
    apply applied_elem_of. split; [done|]. by apply String.eqb_neq. }
  split; [|split].
  - unfold mbind at 1, M_bind. rewrite writeHead_run.
    step_m. simpl. unfold Js.get. rewrite Hl. simpl.
    apply String.eqb_neq in Ht. unfold Js.falsy_string. rewrite Ht. simpl.
    subst r'. f_equal. f_equal. by rewrite <- !app_assoc.
  - subst r'. rewrite sent_app. change (sent (ResStatus 301 :: ?l)) with (sent l).
    rewrite sent_app, sent_setHeaders. simpl. by rewrite app_nil_r.
  - subst r'. rewrite finished_app, finished_cons_status, finished_app,
      finished_setHeaders. unfold finished at 2. simpl. lia.
Qed.

Lemma relayed_redirect_witness :
  NoDup [("location", Some "/canonical-page"); ("etag", None)].*1
  ∧ (res.writeHead 301 [("location", Some "/canonical-page"); ("etag", None)] ;;
     res.end_ "ignored") empty_location
    = Normal tt
        {| headers := {[ "location" := "/canonical-page" ]}; status := Some 301;
           nextApiRes := [ResSetHeader "location" ""; ResStatus 301; ResStatus 301;
                          ResSetHeader "location" "/canonical-page";
                          ResRedirect (Js.Str "/canonical-page")];
           callWhenDone_calls := 1 |}.
Proof.
  assert (Hnd : NoDup [("location", Some "/canonical-page"); ("etag", None)].*1)
    by (apply (bool_decide_unpack _); vm_compute; exact I).
  split; [exact Hnd|].
  destruct (relayed_redirect [("location", Some "/canonical-page"); ("etag", None)]
              "/canonical-page" "ignored" empty_location Hnd) as (Hrun & _).
  - apply (bool_decide_unpack _). vm_compute. exact I.
  - discriminate.
  - rewrite Hrun. reflexivity.
Defined.

(** ** The url fetched by [next] *)

Lemma includes_unfold (s p : string) :
  Js.includes s p
  = String.prefix p s
    || match s with
       | EmptyString => false
       | String _ s' => Js.includes s' p
       end.
Proof. by destruct s. Qed.

Lemma includes_spec (s p : string) :
  Js.includes s p = true ↔ ∃ a b, s = a +:+ p +:+ b.
Proof.
  split.
  - induction s as [|x s IH]; rewrite includes_unfold; intros [Hp|Hr]%orb_prop.
    + apply prefix_inv in Hp as (b & ->). by exists "", b.
    + done.
    + apply prefix_inv in Hp as (b & ->). by exists "", b.
    + destruct (IH Hr) as (a & b & ->). by exists (String x a), b.
  - intros (a & b & ->). induction a as [|x a IH].
    + rewrite includes_unfold.
      change ("" +:+ p +:+ b) with (p +:+ b). by rewrite prefix_append.
    + change (Js.includes (String x a +:+ p +:+ b) p)
        with (String.prefix p (String x (a +:+ p +:+ b))
              || Js.includes (a +:+ p +:+ b) p).
      rewrite IH. apply orb_true_r.
Qed.

(** The url that [next] fetches is [http] exactly when the host header
    contains [localhost] anywhere (as in [localhost.example.com]), and
    [https] in every other case; a request without host header is fetched
    from the host named [undefined]. *)
Theorem fallback_url_protocol (r : NextApiRequest) (res0 : NextApiResponse) :
  let target :=
    originallyRequestedUrlWithProtocolAndHost
      (convertNextJsToReqResNextHandler r res0) in
  ((∃ a b, host r = Some (a +:+ "localhost" +:+ b)) →
     target = "http://" +:+ Js.interpolate (host r) +:+ Js.interpolate (url r))
  ∧ (¬ (∃ a b, host r = Some (a +:+ "localhost" +:+ b)) →
     target = "https://" +:+ Js.interpolate (host r) +:+ Js.interpolate (url r))
  ∧ (host r = None → target = "https://undefined" +:+ Js.interpolate (url r)).
Proof.
  simpl. unfold protocol. split; [|split].
  - intros (a & b & Hh). rewrite Hh.
    assert (Hi : Js.includes (a +:+ "localhost" +:+ b) "localhost" = true)
      by (apply includes_spec; by exists a, b).
    by rewrite Hi.
  - intros Hno. destruct (host r) as [s|]; [|done].
    destruct (Js.includes s "localhost") eqn:Hi; [|done].
    exfalso. apply Hno. apply includes_spec in Hi as (a & b & ->). by exists a, b.
  - by intros ->.
Qed.

Lemma fallback_url_protocol_witness :
  (∃ a b, host {| url := Some "/x"; method := None;
                  host := Some "my.localhost.example.com"; user_agent := None |}
          = Some (a +:+ "localhost" +:+ b))
  ∧ originallyRequestedUrlWithProtocolAndHost
      (convertNextJsToReqResNextHandler
         {| url := Some "/x"; method := None;
            host := Some "my.localhost.example.com"; user_agent := None |} [])
    = "http://my.localhost.example.com/x".
Proof.
  assert (Hsub : ∃ a b, host {| url := Some "/x"; method := None;
                                host := Some "my.localhost.example.com";
                                user_agent := None |}
                        = Some (a +:+ "localhost" +:+ b))
    by (by exists "my.", ".example.com").
  split; [exact Hsub|].
  destruct (fallback_url_protocol
              {| url := Some "/x"; method := None;
                 host := Some "my.localhost.example.com"; user_agent := None |} [])
    as (Hhttp & _).
  rewrite (Hhttp Hsub). reflexivity.
Defined.

(** ** The handler's promise and the outer response *)

(** For a request that passes the guard, the promise returned by the
    handler is resolved exactly when the adapter has finished the outer
    response at least once, with a body or a redirect; [callWhenDone] has
    been called once per finish. *)
Theorem handler_resolved_iff_finished prerendercloud got
    (r : NextApiRequest) (res0 : NextApiResponse) :
  requests_itself r = false →
  let out := handler prerendercloud got r res0 in
  finished (response out) = (finished res0 + resolutions out)%nat
  ∧ (returned out = Resolved ↔ (finished res0 < finished (response out))%nat).
Proof.
  intros Hg out. subst out. unfold handler. rewrite Hg.
  set (h := convertNextJsToReqResNextHandler r res0).
  pose proof (run_balance got h (prerendercloud (req h)) (closure h))
    as (Hbal & _).
  assert (Hres : ∀ c : Closure,
             (callWhenDone_calls c + finished res0 = 0 + finished (nextApiRes c))%nat →
             finished (nextApiRes c) = (finished res0 + callWhenDone_calls c)%nat
             ∧ (waitForPromise c = Resolved
                ↔ (finished res0 < finished (nextApiRes c))%nat)).
  { intros c Hc. split; [lia|]. unfold waitForPromise.
    destruct (0 <? callWhenDone_calls c)%nat eqn:Hn.
    - apply Nat.ltb_lt in Hn. split; [lia | done].
    - apply Nat.ltb_ge in Hn. split; [done | lia]. }
  destruct (forEach _ _ _) as [[] c|e c]; simpl in *; by apply Hres.
Qed.

Lemma handler_resolved_iff_finished_witness :
  requests_itself bitcoin_request = false
  ∧ finished (response (handler declines got_refused bitcoin_request []))
    = (finished [] + resolutions (handler declines got_refused bitcoin_request []))%nat.
Proof.
  split; [reflexivity|].
  destruct (handler_resolved_iff_finished declines got_refused bitcoin_request [])
    as (Hf & _); [reflexivity|].
  exact Hf.
Defined.

(** ** The options set at module load *)

(** Whatever library object [configurePrenderLib] is given, [metaOnly] and
    [whitelistQueryParams] are set on the module's own import; the
    parameter receives the three [disable...] flags only. Called with the
    import itself, as the module does, all five options reach it, in
    source order. *)
Theorem configurePrenderLib_targets (pcloudlib : Lib) :
  (pcloudlib ≠ prerendercloud_lib →
     keys_set_on pcloudlib (configurePrenderLib pcloudlib)
     = ["disableAjaxBypass"; "disableAjaxPreload"; "disableHeadDedupe"]
     ∧ keys_set_on prerendercloud_lib (configurePrenderLib pcloudlib)
       = ["metaOnly"; "whitelistQueryParams"])
  ∧ keys_set_on prerendercloud_lib (configurePrenderLib prerendercloud_lib)
    = ["metaOnly"; "whitelistQueryParams"; "disableAjaxBypass";
       "disableAjaxPreload"; "disableHeadDedupe"]
  ∧ ∀ other, other ≠ pcloudlib → other ≠ prerendercloud_lib →
      keys_set_on other (configurePrenderLib pcloudlib) = [].
Proof.
  split; [|split].
  - intros Hne. unfold keys_set_on, configurePrenderLib.
    split; rewrite !filter_cons; simpl; repeat case_decide;
      simpl in *; first [reflexivity | congruence].
  - reflexivity.
  - intros other Ho1 Ho2. unfold keys_set_on, configurePrenderLib.
    rewrite !filter_cons; simpl; repeat case_decide;
      simpl in *; first [reflexivity | congruence].
Qed.

Lemma configurePrenderLib_targets_witness :
  2%positive ≠ prerendercloud_lib
  ∧ keys_set_on 2%positive (configurePrenderLib 2%positive)
    = ["disableAjaxBypass"; "disableAjaxPreload"; "disableHeadDedupe"].
Proof.
  split; [discriminate|].
  destruct (configurePrenderLib_targets 2%positive) as (Hp & _).
  destruct (Hp ltac:(discriminate)) as (Hk & _). exact Hk.
Defined.

(** ** Instances of the statements above *)


Lemma resolutions_match_finishes_witness :
  waitForPromise {| headers := ∅; status := Some 200;
                    nextApiRes := [ResStatus 200; ResSend "a"];
                    callWhenDone_calls := 1 |} = Resolved
  ∧ waitForPromise
      (final (forEach (perform got_index
                         (convertNextJsToReqResNextHandler bitcoin_request []))
                [SetHeader "vary" "user-agent"; End "b"]
                {| headers := ∅; status := Some 200;
                   nextApiRes := [ResStatus 200; ResSend "a"];
                   callWhenDone_calls := 1 |})) = Resolved.
Proof.
  split; [reflexivity|].
  destruct (resolutions_match_finishes got_index
              (convertNextJsToReqResNextHandler bitcoin_request [])
              [SetHeader "vary" "user-agent"; End "b"]
              {| headers := ∅; status := Some 200;
                 nextApiRes := [ResStatus 200; ResSend "a"];
                 callWhenDone_calls := 1 |}) as (_ & _ & Hres).
  apply Hres. reflexivity.
Defined.

Lemma headers_always_mirrored_witness :
  headers (final (forEach (perform got_index
                             (convertNextJsToReqResNextHandler bitcoin_request []))
                    [SetHeader "vary" "a"; WriteHead 200 [("vary", Some "b")]; End ""]
                    fresh)) !! "vary" = Some "b"
  ∧ ResSetHeader "vary" "b"
    ∈ nextApiRes (final (forEach (perform got_index
                                    (convertNextJsToReqResNextHandler bitcoin_request []))
                           [SetHeader "vary" "a"; WriteHead 200 [("vary", Some "b")];
                            End ""]
                           fresh)).
Proof.
  assert (Hl : headers (final (forEach (perform got_index
                             (convertNextJsToReqResNextHandler bitcoin_request []))
                    [SetHeader "vary" "a"; WriteHead 200 [("vary", Some "b")]; End ""]
                    fresh)) !! "vary" = Some "b") by reflexivity.
  split; [exact Hl|].
  exact (headers_always_mirrored got_index bitcoin_request []
           [SetHeader "vary" "a"; WriteHead 200 [("vary", Some "b")]; End ""]
           "vary" "b" Hl).
Defined.

(** * The adapter on a response that can refuse a call *)

(** On a response that accepts every call and with a fetch that settles,
    each call of the middleware does what the recorder model says. *)
Lemma perform_accepting (got : string → GotOptions → GotResult)
    (h : fakeHandler) (call : Call) (c : Closure) :
  Live.perform accepting (fun target options => Some (got target options)) h call c
  = perform got h call c.
Proof.
  destruct call as [key|key val|s hs|body|];
    first [reflexivity | apply next_accepting].
Qed.

Lemma final_run_cons framework got (h : fakeHandler) (call : Call)
    (calls : list Call) (c : Closure) :
  final (forEach (Live.perform framework got h) (call :: calls) c)
  = match Live.perform framework got h call c with
    | Normal _ c' => final (forEach (Live.perform framework got h) calls c')
    | Throw _ c' => c'
    end.
Proof. apply final_forEach_cons. Qed.

(** The headers loop of [writeHead] never calls the resolver and never
    finishes the response, wherever it stops. *)
Lemma live_each_header_quiet framework (hs : list (string * option string))
    (c : Closure) :
  let c' := final (forEach (Live.each_header framework) hs c) in
  callWhenDone_calls c' = callWhenDone_calls c
  ∧ finished (nextApiRes c') = finished (nextApiRes c).
Proof.
  revert c. induction hs as [|[k v] hs IH]; intros c; [done|].
  rewrite final_forEach_cons.
  assert (Hskip : Live.each_header framework (k, v) c = Normal tt c
                  ∨ Live.each_header framework (k, v) c
                    = Live.setHeader framework k (default "" v) c).
  { simpl. destruct v as [s|]; [|by left].
    destruct (Js.falsy_string s); [by left | by right]. }
  destruct Hskip as [-> | ->]; [apply IH|].
  live_m. simpl. destruct (framework (nextApiRes c) _); simpl; [done|].
  match goal with |- context [forEach _ hs ?x] => destruct (IH x) as [H1 H2] end.
  simpl in *. rewrite H1, H2, finished_app. unfold finished at 2. simpl.
  split; [done | lia].
Qed.

Lemma live_setup_quiet framework got (h : fakeHandler) (call : Call) (c : Closure) :
  terminal call = false →
  let c' := final (Live.perform framework got h call c) in
  callWhenDone_calls c' = callWhenDone_calls c
  ∧ finished (nextApiRes c') = finished (nextApiRes c).
Proof.
  destruct call as [key|key val|s hs|body|]; simpl; intros Ht; try done.
  - live_m. simpl. destruct (framework (nextApiRes c) _); simpl; [done|].
    rewrite finished_app. unfold finished at 2. simpl. split; [done | lia].
  - unfold Live.writeHead, mbind, M_bind, assign_status, write. simpl.
    unfold Live.attempt. simpl.
    destruct (framework (nextApiRes c) (ResStatus s)); simpl; [done|].
    match goal with |- context [forEach _ hs ?x] =>
      destruct (live_each_header_quiet framework hs x) as [H1 H2] end.
    simpl in *. rewrite H1, H2, finished_app. unfold finished at 2. simpl.
    split; [done | lia].
Qed.

(** Whatever the outer response accepts or refuses and however the fetch
    behaves, a middleware that calls neither [end] nor [next] on a fresh
    adapter leaves the promise pending: [callWhenDone] is never called
    and the adapter issues no body and no redirect, also when one of the
    calls throws. *)
Theorem never_ended_stays_pending framework got
    (r : NextApiRequest) (res0 : NextApiResponse) (calls : list Call) :
  Forall (fun call => terminal call = false) calls →
  let h := convertNextJsToReqResNextHandler r res0 in
  let c' := final (forEach (Live.perform framework got h) calls (closure h)) in
  callWhenDone_calls c' = 0%nat
  ∧ waitForPromise c' = Pending
  ∧ finished (nextApiRes c') = finished res0.
Proof.
  intros Hcalls h c'.
  assert (Hq : ∀ c, callWhenDone_calls
                      (final (forEach (Live.perform framework got h) calls c))
                    = callWhenDone_calls c
                    ∧ finished (nextApiRes
                                  (final (forEach (Live.perform framework got h) calls c)))
                      = finished (nextApiRes c)).
  { induction Hcalls as [|call calls Hc _ IH]; intros c; [done|].
    rewrite final_run_cons.
    pose proof (live_setup_quiet framework got h call c Hc) as [H1 H2].
    destruct (Live.perform framework got h call c) as [[] c1|e c1]; simpl in *.
    - destruct (IH c1) as [H3 H4]. split; congruence.
    - done. }
  destruct (Hq (closure h)) as [H1 H2]. subst c'. simpl in *.
  split; [exact H1|]. split; [|exact H2].
  unfold waitForPromise. by rewrite H1.
Qed.

Lemma never_ended_stays_pending_witness :
  Forall (fun call => terminal call = false)
    [WriteHead 200 [("vary", Some "user-agent")]; SetHeader "bad name" "x"]
  ∧ waitForPromise
      (final (forEach (Live.perform
                         (fun _ call =>
                            match call with
                            | ResSetHeader "bad name" _ =>
                                Some "TypeError [ERR_INVALID_HTTP_TOKEN]"
                            | _ => None
                            end)
                         (fun _ _ => None)
                         (convertNextJsToReqResNextHandler bitcoin_request []))
                [WriteHead 200 [("vary", Some "user-agent")]; SetHeader "bad name" "x"]
                (closure (convertNextJsToReqResNextHandler bitcoin_request []))))
    = Pending.
Proof.
  assert (Hs : Forall (fun call => terminal call = false)
                 [WriteHead 200 [("vary", Some "user-agent")];
                  SetHeader "bad name" "x"]) by (repeat constructor).
  split; [exact Hs|].
  destruct (never_ended_stays_pending
              (fun _ call =>
                 match call with
                 | ResSetHeader "bad name" _ => Some "TypeError [ERR_INVALID_HTTP_TOKEN]"
                 | _ => None
                 end)
              (fun _ _ => None) bitcoin_request []
              [WriteHead 200 [("vary", Some "user-agent")]; SetHeader "bad name" "x"] Hs)
    as (_ & Hp & _).
  exact Hp.
Defined.

Lemma live_attempt_throws framework (call : ResCall) (c c' : Closure) (e : string) :
  Live.attempt framework call c = Throw e c' →
  c' = c ∧ framework (nextApiRes c) call = Some e.
Proof.
  unfold Live.attempt. destruct (framework (nextApiRes c) call) eqn:Hf; [|done].
  by intros [= <- <-].
Qed.

Lemma live_each_header_throws framework (hs : list (string * option string))
    (c c' : Closure) (e : string) :
  forEach (Live.each_header framework) hs c = Throw e c' →
  ∃ call, framework (nextApiRes c') call = Some e.
Proof.
  revert c. induction hs as [|[k v] hs IH]; intros c; [done|].
  simpl. unfold mbind, M_bind.
  destruct v as [s|]; [|apply IH].
  destruct (Js.falsy_string s); [apply IH|].
  unfold Live.setHeader, mbind, M_bind, assign_header, write. simpl.
  match goal with |- context [Live.attempt framework ?call ?x] =>
    destruct (Live.attempt framework call x) as [[] c1|e1 c1] eqn:Ha end.
  - apply IH.
  - intros [= <- <-]. apply live_attempt_throws in Ha as [-> Hf]. by eexists.
Qed.

Lemma live_on_rejected_throws framework (err : string) (c c' : Closure) (e : string) :
  Live.on_rejected framework err c = Throw e c' →
  ∃ call, framework (nextApiRes c') call = Some e.
Proof.
  unfold Live.on_rejected, mbind, M_bind.
  destruct (Live.attempt framework (ResStatus 500) c) as [[] c1|e1 c1] eqn:H5.
  - destruct (Live.attempt framework (ResSend err) c1) as [[] c2|e2 c2] eqn:Hs; [done|].
    intros [= <- <-]. apply live_attempt_throws in Hs as [-> Hf]. by eexists.
  - intros [= <- <-]. apply live_attempt_throws in H5 as [-> Hf]. by eexists.
Qed.

Lemma live_perform_throws framework got (h : fakeHandler) (call : Call)
    (c c' : Closure) (e : string) :
  Live.perform framework got h call c = Throw e c' → explained framework e c'.
Proof.
  destruct call as [key|key val|s hs|body|]; simpl.
  - done.
  - unfold Live.setHeader, mbind, M_bind, assign_header, write. simpl.
    intros Ha. right.
    match type of Ha with context [Live.attempt framework ?call ?x] =>
      destruct (Live.attempt framework call x) as [[] c1|e1 c1] eqn:Hb end; [done|].
    injection Ha as <- <-. apply live_attempt_throws in Hb as [-> Hf]. by eexists.
  - unfold Live.writeHead, mbind, M_bind, assign_status, write. simpl.
    intros Ha. right.
    match type of Ha with context [Live.attempt framework ?call ?x] =>
      destruct (Live.attempt framework call x) as [[] c1|e1 c1] eqn:Hb end.
    + by apply live_each_header_throws in Ha.
    + injection Ha as <- <-. apply live_attempt_throws in Hb as [-> Hf]. by eexists.
  - unfold Live.end_, mbind, M_bind, read, throw.
    destruct (Js.loose_eq (status c) 301) eqn:Hs.
    + apply loose_eq_true in Hs.
      destruct (Js.falsy (Js.get (headers c) "location")) eqn:Hl.
      * intros [= <- <-]. by left.
      * intros Ha. right.
        destruct (Live.attempt framework _ c) as [[] c1|e1 c1] eqn:Hb; [done|].
        injection Ha as <- <-. apply live_attempt_throws in Hb as [-> Hf]. by eexists.
    + intros Ha. right.
      destruct (Live.attempt framework _ c) as [[] c1|e1 c1] eqn:Hb.
      * destruct (Live.attempt framework (ResSend body) c1) as [[] c2|e2 c2] eqn:Hc;
          [done|].
        injection Ha as <- <-. apply live_attempt_throws in Hc as [-> Hf]. by eexists.
      * injection Ha as <- <-. apply live_attempt_throws in Hb as [-> Hf]. by eexists.
  - unfold Live.next. destruct (got _ _) as [[body|err]|]; [| |done].
    + unfold catch.
      destruct (Live.on_fulfilled framework body c) as [[] c1|e1 c1]; [done|].
      intros Ha. right. by apply live_on_rejected_throws in Ha.
    + intros Ha. right. by apply live_on_rejected_throws in Ha.
Qed.

(** Whatever the outer response accepts or refuses, an error that ends a
    run of middleware calls on the adapter is either [no location header]
    (thrown by [end] while the recorded status is 301 and the view's
    location is missing or empty) or an error that the outer response
    raised on a call the adapter made to it: the adapter adds no other
    error of its own. *)
Theorem errors_explained framework got
    (h : fakeHandler) (calls : list Call) (c c' : Closure) (e : string) :
  forEach (Live.perform framework got h) calls c = Throw e c' →
  (e = "no location header" ∧ status c' = Some 301
   ∧ Js.falsy (Js.get (headers c') "location") = true)
  ∨ ∃ call, framework (nextApiRes c') call = Some e.
Proof.
  revert c. induction calls as [|call calls IH]; intros c; [done|].
  simpl. unfold mbind, M_bind.
  destruct (Live.perform framework got h call c) as [[] c1|e1 c1] eqn:Hp.
  - apply IH.
  - intros [= <- <-]. by apply live_perform_throws in Hp.
Qed.

Lemma errors_explained_witness :
  forEach (Live.perform refusing_once_sent (fun _ _ => None)
             (convertNextJsToReqResNextHandler bitcoin_request []))
    [End "again"] ended
  = Throw "Error [ERR_HTTP_HEADERS_SENT]" ended
  ∧ ∃ call, refusing_once_sent (nextApiRes ended) call
            = Some "Error [ERR_HTTP_HEADERS_SENT]".
Proof.
  assert (Hrun : forEach (Live.perform refusing_once_sent (fun _ _ => None)
                            (convertNextJsToReqResNextHandler bitcoin_request []))
                   [End "again"] ended
                 = Throw "Error [ERR_HTTP_HEADERS_SENT]" ended) by reflexivity.
  split; [exact Hrun|].
  destruct (errors_explained _ _ _ _ _ _ _ Hrun) as [(He & _)|Hf].
  - discriminate He.
  - exact Hf.
Defined.
